(** * Bill acceptor serial driver (main.py): shallow embedding and properties

    The driver polls a bill acceptor over RS232, reads whatever the device
    has sent, and reacts with follow-up commands.  The Python functions are
    embedded as computations in a state-and-exception monad over a [World]
    that holds the serial port (bytes waiting to be read, commands written,
    the faults the port is going to raise) and the lines printed so far. *)

From Stdlib Require Import List String Ascii ZArith NArith Lia Bool.
From Stdlib Require Import Strings.Byte DecimalString.
Import ListNotations.
Open Scope string_scope.

(** ** Python values used by the program *)

Module Py.

(** A [bytes] object. *)
Definition bytes := list byte.

(** [a == b] on bytes. *)
Fixpoint bytes_eqb (a b : bytes) : bool :=
  match a, b with
  | [], [] => true
  | x :: a', y :: b' => Byte.eqb x y && bytes_eqb a' b'
  | _, _ => false
  end.

(** [b.startswith(prefix)]. *)
Fixpoint startswith (b prefix : bytes) {struct prefix} : bool :=
  match prefix, b with
  | [], _ => true
  | p :: prefix', x :: b' => Byte.eqb x p && startswith b' prefix'
  | _ :: _, [] => false
  end.

(** [x in l] for a list of bytes objects. *)
Definition contains (l : list bytes) (x : bytes) : bool :=
  existsb (bytes_eqb x) l.

(** The slices [b[:n]] and [b[n:]] for a literal [n >= 0]; slices never
    raise, they clip to the length of the object. *)
Definition slice_to (n : nat) (b : bytes) : bytes := firstn n b.
Definition slice_from (n : nat) (b : bytes) : bytes := skipn n b.

(** Truth value of a bytes object: non-empty. *)
Definition truthy (b : bytes) : bool :=
  match b with [] => false | _ :: _ => true end.

(** [b.hex()]: two lowercase hexadecimal digits per byte. *)
Definition hex_digit (n : N) : ascii :=
  match n with
  | 0 => "0" | 1 => "1" | 2 => "2" | 3 => "3" | 4 => "4" | 5 => "5"
  | 6 => "6" | 7 => "7" | 8 => "8" | 9 => "9" | 10 => "a" | 11 => "b"
  | 12 => "c" | 13 => "d" | 14 => "e" | _ => "f"
  end%N%char.

Definition hex_byte (b : byte) : string :=
  String (hex_digit (Byte.to_N b / 16)) (String (hex_digit (Byte.to_N b mod 16)) "").

Fixpoint hex (b : bytes) : string :=
  match b with
  | [] => ""
  | x :: b' => hex_byte x ++ hex b'
  end.

(** [str(n)] for an [int]. *)
Definition str_int (n : Z) : string :=
  match n with
  | Z0 => "0"
  | Zpos p => NilEmpty.string_of_uint (Pos.to_uint p)
  | Zneg p => "-" ++ NilEmpty.string_of_uint (Pos.to_uint p)
  end.

(** [d.get(key, default)] on a dict given by its literal. *)
Fixpoint dict_get {K V : Type} (eqb : K -> K -> bool)
    (d : list (K * V)) (key : K) (default : V) : V :=
  match d with
  | [] => default
  | (k, v) :: d' => if eqb key k then v else dict_get eqb d' key default
  end.

End Py.

Import Py.

(** ** The world: serial port and standard output *)

(** Exceptions the program can meet; each carries the text of [str(e)]. *)
Inductive exn : Type :=
  | SerialException (msg : string)
  | IndexError (msg : string).

Definition str_exn (e : exn) : string :=
  match e with
  | SerialException msg => msg
  | IndexError msg => msg
  end.

(** The serial port is the program's only collaborator.  [in_buffer] holds
    the bytes the device has sent and the program has not read yet,
    [written] the commands accepted by [ser.write], oldest first.  Each
    port operation consumes the head of [faults]: [Some msg] makes that
    operation raise [SerialException(msg)], [None] (or an exhausted list)
    lets it go through.  [stdout] is the list of printed lines. *)
Record World : Type := mkWorld {
  in_buffer : bytes;
  written : list bytes;
  faults : list (option string);
  stdout : list string
}.

Inductive outcome (A : Type) : Type :=
  | Return (a : A)
  | Raise (e : exn).
Arguments Return {A} a.
Arguments Raise {A} e.

Definition M (A : Type) : Type := World -> outcome A * World.

Definition ret {A : Type} (a : A) : M A := fun w => (Return a, w).

Definition raise {A : Type} (e : exn) : M A := fun w => (Raise e, w).

Definition bind {A B : Type} (m : M A) (k : A -> M B) : M B :=
  fun w =>
    match m w with
    | (Return a, w') => k a w'
    | (Raise e, w') => (Raise e, w')
    end.

Declare Scope py_scope.
Delimit Scope py_scope with py.
Notation "x <- m ;; k" := (bind m (fun x => k))
  (at level 61, m at next level, right associativity) : py_scope.
Notation "m ;; k" := (bind m (fun _ => k))
  (at level 61, right associativity) : py_scope.
Open Scope py_scope.

(** [try: m  except serial.SerialException as e: h(str(e))] *)
Definition try_except_serial {A : Type} (m : M A) (h : string -> M A) : M A :=
  fun w =>
    match m w with
    | (Raise (SerialException msg), w') => h msg w'
    | r => r
    end.

(** [try: m  except Exception as e: h(e)] *)
Definition try_except {A : Type} (m : M A) (h : exn -> M A) : M A :=
  fun w =>
    match m w with
    | (Raise e, w') => h e w'
    | r => r
    end.

(** [print(s)] *)
Definition print (s : string) : M unit :=
  fun w => (Return tt,
            mkWorld (in_buffer w) (written w) (faults w) (stdout w ++ [s])).

(** Entry into a port operation: the next scheduled fault, if any, fires. *)
Definition port_op : M unit :=
  fun w =>
    match faults w with
    | [] => (Return tt, w)
    | None :: fs =>
        (Return tt, mkWorld (in_buffer w) (written w) fs (stdout w))
    | Some msg :: fs =>
        (Raise (SerialException msg),
         mkWorld (in_buffer w) (written w) fs (stdout w))
    end.

(** [ser.write(data)] *)
Definition ser_write (data : bytes) : M unit :=
  port_op ;;
  fun w => (Return tt,
            mkWorld (in_buffer w) (written w ++ [data]) (faults w) (stdout w)).

(** [ser.in_waiting] *)
Definition ser_in_waiting : M nat :=
  port_op ;;
  fun w => (Return (List.length (in_buffer w)), w).

(** [ser.read(size)] with [size] bytes or fewer waiting. *)
Definition ser_read (size : nat) : M bytes :=
  port_op ;;
  fun w => (Return (firstn size (in_buffer w)),
            mkWorld (skipn size (in_buffer w)) (written w) (faults w) (stdout w)).

(** [b[i]] on bytes, for a literal [i >= 0]: an [int], or [IndexError]. *)
Definition getitem (b : bytes) (i : nat) : M Z :=
  match nth_error b i with
  | Some x => ret (Z.of_N (Byte.to_N x))
  | None => raise (IndexError "index out of range")
  end.

(** ** The program *)

(** Wire bytes of the four commands, as the literals of the source. *)
Definition POLL : bytes := [x0c].
Definition ACK : bytes := [x02].
Definition RESET : bytes := [x30].
Definition ENABLE : bytes := [x3e].

(** [send_command(ser, command)] *)
Definition send_command (command : bytes) : M unit :=
  try_except_serial
    (ser_write command ;;
     print ("Command sent: " ++ hex command))
    (fun e => print ("Error sending command: " ++ e)).

(** [receive_response(ser)]: [None] or the bytes read. *)
Definition receive_response : M (option bytes) :=
  try_except_serial
    (n <- ser_in_waiting ;;
     if (0 <? n)%nat then
       size <- ser_in_waiting ;;
       response <- ser_read size ;;
       print ("Received response: " ++ hex response) ;;
       ret (Some response)
     else ret None)
    (fun e => print ("Error receiving response: " ++ e) ;; ret None).

(** The dict literal [error_codes] of [handle_error_response]. *)
Definition error_codes : list (bytes * string) :=
  [ ([x20], "Motor Failure");
    ([x21], "Checksum Error");
    ([x22], "Bill Jam");
    ([x23], "Bill Removed");
    ([x24], "Stacker Open");
    ([x25], "Sensor Problem");
    ([x27], "Bill Fish");
    ([x28], "Stacker Problem");
    ([x29], "Bill Reject");
    ([x2a], "Invalid Command") ].

(** [error_codes.get(response[:1], "Unknown Error")] (line 57). *)
Definition error_message (response : bytes) : string :=
  dict_get bytes_eqb error_codes (slice_to 1 response) "Unknown Error".

(** [response[:1] in [b'\x20', b'\x22', b'\x28']] (line 60). *)
Definition requires_reset (response : bytes) : bool :=
  contains [[x20]; [x22]; [x28]] (slice_to 1 response).

(** [handle_error_response(ser, response)] *)
Definition handle_error_response (response : bytes) : M unit :=
  print ("Error detected: " ++ error_message response) ;;
  (if requires_reset response then
     print "Attempting to reset due to hardware issue..." ;;
     send_command RESET
   else
     print "No specific recovery action defined for this error.") ;;
  send_command ENABLE.

(** The dict literal [value_map] of [get_value_from_bill_type]. *)
Definition value_map : list (Z * string) :=
  [ (64, "10 nghìn");
    (65, "20 nghìn");
    (66, "50 nghìn");
    (67, "100 nghìn");
    (68, "200 nghìn");
    (69, "500 nghìn") ]%Z.

(** [get_value_from_bill_type(bill_type)] *)
Definition get_value_from_bill_type (bill_type : Z) : string :=
  dict_get Z.eqb value_map bill_type "Unknown".

(** Lines 81-96 of [process_response]: the [if response: ... else: ...]
    block, run on the response left after the idle handling. *)
Definition dispatch_response (response : bytes) : M unit :=
  if truthy response then
    if bytes_eqb response [x80; x8f] then
      print "Power-up acknowledgment request received." ;;
      send_command ACK
    else if startswith response [x81] then
      print ("Bill validation message received: " ++ hex response) ;;
      bill_type <- getitem response 2 ;;
      let value := get_value_from_bill_type bill_type in
      print ("Bill type: " ++ str_int bill_type ++ ", Value: " ++ value) ;;
      send_command ACK
    else if contains [[x20]; [x21]; [x22]; [x28]] (slice_to 1 response) then
      handle_error_response response
    else
      print ("Unknown response: " ++ hex response)
  else
    print "Received empty or invalid response.".

(** [process_response(ser, response)] *)
Definition process_response (response : bytes) : M unit :=
  if bytes_eqb response [x00] then
    print "Received idle status (00), no action needed."
  else
    response' <-
      (if startswith response [x00] then
         print "Detected leading 00 byte, removing it." ;;
         ret (slice_from 1 response)
       else ret response) ;;
    dispatch_response response'.

(** [check_status(ser)]; [if response:] holds for a non-empty bytes object
    and fails for [None]. *)
Definition check_status : M unit :=
  try_except
    (send_command POLL ;;
     response <- receive_response ;;
     match response with
     | Some r => if truthy r then process_response r else ret tt
     | None => ret tt
     end)
    (fun e => print ("Error while checking status: " ++ str_exn e)).

(** The device sends [r]: the bytes join those waiting at the port. *)
Definition deliver (r : bytes) (w : World) : World :=
  mkWorld (in_buffer w ++ r)%list (written w) (faults w) (stdout w).

(** The commands a computation hands to the port, as seen from [w]. *)
Definition emitted {A : Type} (m : M A) (w : World) : list bytes :=
  skipn (List.length (written w)) (written (snd (m w))).

(** The polling loop of [main] (lines 126-128) over as many cycles as
    responses: before each cycle the device delivers the next response;
    the result lists the commands each cycle emitted.  [time.sleep] leaves
    the world as it is. *)
Fixpoint poll_cycles (responses : list bytes) (w : World)
    : list (list bytes) * World :=
  match responses with
  | [] => ([], w)
  | r :: rs =>
      let w1 := deliver r w in
      let w2 := snd (check_status w1) in
      let (cmds, w3) := poll_cycles rs w2 in
      (emitted check_status w1 :: cmds, w3)
  end.

(** A port with nothing waiting, nothing written, no fault scheduled. *)
Definition fresh_world : World := mkWorld [] [] [] [].

(** ** Opening the port *)






(** The defaults of the two parameters (line 4). *)
Definition default_port : string := "/dev/ttyUSB0".
Definition default_baudrate : Z := 9600.


(** ** Reading a run: what it returned, wrote and printed *)

(** From [w], [m] ends with [r], having handed exactly the commands [cmds]
    to the port and printed exactly [lines]. *)
Definition runs {A : Type} (m : M A) (w : World) (r : outcome A)
    (cmds : list bytes) (lines : list string) : Prop :=
  fst (m w) = r
  /\ written (snd (m w)) = (written w ++ cmds)%list
  /\ stdout (snd (m w)) = (stdout w ++ lines)%list.

(** Occurrences of a command in a list of commands. *)
Definition occurrences (cmd : bytes) (cmds : list bytes) : nat :=
  List.length (filter (bytes_eqb cmd) cmds).

(** ** Vocabulary of the statements *)

(** The codes that have an entry in [error_codes]. *)
Definition table_codes : list byte :=
  [x20; x21; x22; x23; x24; x25; x27; x28; x29; x2a].

(** The line of the idle branch (line 73) and of the stripping step
    (line 78). *)
Definition idle_line : string := "Received idle status (00), no action needed.".

Definition strip_line : string := "Detected leading 00 byte, removing it.".

(** The world after one more printed line. *)
Definition after_print (s : string) (w : World) : World := snd (print s w).

(** The codes [process_response] routes to the recovery procedure
    (line 91). *)
Definition dispatched_codes : list byte := [x20; x21; x22; x28].

(** Whatever [m] does, it leaves the commands already written and the
    lines already printed in place. *)
Definition appends {A : Type} (m : M A) : Prop :=
  forall w, exists cmds lines,
    written (snd (m w)) = (written w ++ cmds)%list
    /\ stdout (snd (m w)) = (stdout w ++ lines)%list.

(** [m] returns from every world. *)
Definition never_raises {A : Type} (m : M A) : Prop :=
  forall w, exists a, fst (m w) = Return a.

(** An escrow frame too short to have a byte at index 2. *)
Definition short_escrow (response : bytes) : bool :=
  startswith response [x81] && (List.length response <? 3)%nat.

(** [m] prints [s] before anything else. *)
Definition prints_first {A : Type} (s : string) (m : M A) : Prop :=
  forall w, exists lines, stdout (snd (m w)) = (stdout w ++ s :: lines)%list.

(** [m] reads nothing from the port and, begun on a port with no fault
    scheduled, ends on one. *)
Definition keeps_port {A : Type} (m : M A) : Prop :=
  forall w, in_buffer (snd (m w)) = in_buffer w
            /\ (faults w = [] -> faults (snd (m w)) = []).

(** The [n]-th coming port operation raises. *)
Definition faulty (n : nat) (w : World) : bool :=
  match nth_error (faults w) n with
  | Some (Some _) => true
  | _ => false
  end.

(** From every world [m] appends commands and lines that satisfy [P]. *)
Definition effects (P : list bytes -> list string -> Prop) {A : Type}
    (m : M A) : Prop :=
  forall w, exists cmds lines,
    written (snd (m w)) = (written w ++ cmds)%list
    /\ stdout (snd (m w)) = (stdout w ++ lines)%list
    /\ P cmds lines.

(** The line that reports a written command (line 28), and the test for
    such a line. *)
Definition command_line (command : bytes) : string :=
  "Command sent: " ++ hex command.

Definition is_command_line (line : string) : bool :=
  String.prefix "Command sent: " line.

(** The printed lines account for the written commands: the lines that
    report a command are those of the commands written, in order. *)
Definition accounted (cmds : list bytes) (lines : list string) : Prop :=
  filter is_command_line lines = map command_line cmds.

(** The line that reports an error with no entry in the error table. *)
Definition unknown_error_line : string := "Error detected: Unknown Error".

(** No printed line reports an error that has no entry in the table. *)
Definition no_unknown_error (cmds : list bytes) (lines : list string) : Prop :=
  ~ In unknown_error_line lines.

(** ** Basic facts *)

Lemma skipn_length_app {A : Type} (l l' : list A) :
  skipn (List.length l) (l ++ l') = l'.
Proof.
  induction l as [|x l IH]; simpl; [reflexivity | exact IH].
Qed.

Lemma runs_emitted {A : Type} (m : M A) w r cmds lines :
  runs m w r cmds lines -> emitted m w = cmds.
Proof.
  intros (_ & Hw & _). unfold emitted. rewrite Hw. apply skipn_length_app.
Qed.

Lemma bytes_eqb_eq (a b : bytes) : bytes_eqb a b = true <-> a = b.
Proof.
  revert b; induction a as [|x a IH]; intros [|y b]; simpl;
    try (split; [discriminate | congruence]); [tauto|].
  rewrite andb_true_iff, IH. split.
  - intros [H1 H2]. apply Byte.byte_dec_bl in H1. congruence.
  - intros H; injection H as -> ->. split; [|reflexivity].
    now apply Byte.byte_dec_lb.
Qed.

Lemma contains_In (l : list bytes) (x : bytes) :
  contains l x = true <-> In x l.
Proof.
  unfold contains. rewrite existsb_exists. split.
  - intros (y & Hy & E). apply bytes_eqb_eq in E. now subst.
  - intros H. exists x. split; [exact H | now apply bytes_eqb_eq].
Qed.

(** On a port with no fault scheduled a command goes out and is logged. *)
Lemma send_command_healthy (command : bytes) (w : World) :
  faults w = [] ->
  send_command command w
  = (Return tt,
     mkWorld (in_buffer w) (written w ++ [command]) []
             (stdout w ++ ["Command sent: " ++ hex command])).
Proof.
  destruct w as [ib wr fl so]; simpl; intros ->. reflexivity.
Qed.

(** [send_command] swallows the port's exception: it always returns. *)
Lemma send_command_returns (command : bytes) (w : World) :
  fst (send_command command w) = Return tt.
Proof.
  destruct w as [ib wr [|[msg|] fl] so]; reflexivity.
Qed.

(** ** Error recovery *)

(** The recovery procedure on a healthy port, by the reset decision. *)
Lemma handle_error_response_runs (response : bytes) (w : World) :
  faults w = [] ->
  runs (handle_error_response response) w (Return tt)
    (if requires_reset response then [RESET; ENABLE] else [ENABLE])
    (("Error detected: " ++ error_message response)
     :: (if requires_reset response
         then ["Attempting to reset due to hardware issue...";
               "Command sent: 30"; "Command sent: 3e"]
         else ["No specific recovery action defined for this error.";
               "Command sent: 3e"])).
Proof.
  destruct w as [ib wr fl so]; simpl; intros ->.
  unfold runs, handle_error_response.
  destruct (requires_reset response); cbn;
    repeat rewrite <- app_assoc; repeat split; reflexivity.
Qed.

(** C2. Error recovery sequencing: on a port that raises no fault, for
    every response handed to the recovery procedure the commands emitted
    are [Reset, Enable] when the code [response[:1]] is one of 0x20, 0x22,
    0x28 and [Enable] alone otherwise; so at most one Reset, exactly one
    Enable, Enable last, and Reset exactly for those three codes.  Code
    0x22 gives [Reset, Enable] and code 0x21 gives [Enable]. *)
Theorem handle_error_response_sequencing (response : bytes) (w : World) :
  faults w = [] ->
  let cmds := emitted (handle_error_response response) w in
  fst (handle_error_response response w) = Return tt
  /\ written (snd (handle_error_response response w)) = (written w ++ cmds)%list
  /\ (cmds = [RESET; ENABLE] \/ cmds = [ENABLE])
  /\ (occurrences RESET cmds <= 1)%nat
  /\ occurrences ENABLE cmds = 1%nat
  /\ last cmds [] = ENABLE
  /\ (In RESET cmds <-> In (slice_to 1 response) [[x20]; [x22]; [x28]])
  /\ (slice_to 1 response = [x22] -> cmds = [[x30]; [x3e]])
  /\ (slice_to 1 response = [x21] -> cmds = [[x3e]]).
Proof.
  intros Hw cmds.
  pose proof (handle_error_response_runs response w Hw) as Hr.
  pose proof (runs_emitted _ _ _ _ _ Hr) as He. fold cmds in He.
  destruct Hr as (Hret & Hwr & _). rewrite <- He in Hwr.
  split; [exact Hret | split; [exact Hwr |]].
  assert (Hreq : requires_reset response = true
                 <-> In (slice_to 1 response) [[x20]; [x22]; [x28]])
    by apply contains_In.
  clearbody cmds. subst cmds.
  destruct (requires_reset response) eqn:E.
  - repeat split; try (now left); try reflexivity; try (cbv; lia).
    + intros _. now apply Hreq.
    + intros E1. unfold requires_reset in E. rewrite E1 in E. discriminate.
  - repeat split; try (now right); try reflexivity; try (cbv; lia).
    + intros [H|[]]. discriminate.
    + intros H. apply Hreq in H. discriminate.
    + intros E1. unfold requires_reset in E. rewrite E1 in E. discriminate.
Qed.

Lemma handle_error_response_sequencing_witness :
  faults fresh_world = []
  /\ emitted (handle_error_response [x22]) fresh_world = [[x30]; [x3e]].
Proof.
  split; [reflexivity |].
  apply (handle_error_response_sequencing [x22] fresh_world eq_refl).
  reflexivity.
Defined.

(** ** The error table *)

Lemma In_byte_existsb (c : byte) (l : list byte) :
  In c l <-> existsb (Byte.eqb c) l = true.
Proof.
  rewrite existsb_exists. split.
  - intros H. exists c. split; [exact H | now apply Byte.byte_dec_lb].
  - intros (y & Hy & E). apply Byte.byte_dec_bl in E. now subst.
Qed.

Lemma error_message_known (c : byte) (rest : bytes) :
  existsb (Byte.eqb c) table_codes = true ->
  error_message (c :: rest) <> "Unknown Error"
  /\ In ([c], error_message (c :: rest)) error_codes.
Proof.
  destruct c; intros H; try discriminate H; clear H;
    (split; [discriminate | cbv; tauto]).
Qed.

Lemma error_message_unknown (c : byte) (rest : bytes) :
  existsb (Byte.eqb c) table_codes = false ->
  error_message (c :: rest) = "Unknown Error"
  /\ requires_reset (c :: rest) = false.
Proof.
  destruct c; intros H; try discriminate H; clear H; split; reflexivity.
Qed.

(** C7. The error table lookup is total: for each of the ten codes 0x20,
    0x21, 0x22, 0x23, 0x24, 0x25, 0x27, 0x28, 0x29, 0x2A the message is
    that code's table entry and differs from "Unknown Error"; for every
    other byte the message is "Unknown Error", no reset is required, and on
    a port that raises no fault the recovery procedure emits Enable
    alone. *)
Theorem error_table_lookup_total (c : byte) (rest : bytes) (w : World) :
  faults w = [] ->
  (In c [x20; x21; x22; x23; x24; x25; x27; x28; x29; x2a] ->
     error_message (c :: rest) <> "Unknown Error"
     /\ In ([c], error_message (c :: rest)) error_codes)
  /\ (~ In c [x20; x21; x22; x23; x24; x25; x27; x28; x29; x2a] ->
     error_message (c :: rest) = "Unknown Error"
     /\ requires_reset (c :: rest) = false
     /\ emitted (handle_error_response (c :: rest)) w = [[x3e]]).
Proof.
  intros Hw. fold table_codes. split.
  - intros H. apply In_byte_existsb in H. now apply error_message_known.
  - intros H.
    assert (E : existsb (Byte.eqb c) table_codes = false).
    { destruct (existsb (Byte.eqb c) table_codes) eqn:E; [|reflexivity].
      exfalso. apply H. now apply In_byte_existsb. }
    destruct (error_message_unknown c rest E) as [Hm Hr].
    repeat split; [exact Hm | exact Hr |].
    pose proof (handle_error_response_runs (c :: rest) w Hw) as Hruns.
    rewrite Hr in Hruns. exact (runs_emitted _ _ _ _ _ Hruns).
Qed.

Lemma error_table_lookup_total_witness :
  faults fresh_world = []
  /\ error_message [x2a] <> "Unknown Error"
  /\ error_message [xff] = "Unknown Error"
  /\ emitted (handle_error_response [xff]) fresh_world = [[x3e]].
Proof.
  split; [reflexivity |].
  split.
  - apply (error_table_lookup_total x2a [] fresh_world eq_refl).
    cbv; tauto.
  - assert (N : ~ In xff [x20; x21; x22; x23; x24; x25; x27; x28; x29; x2a])
      by (cbv; intuition discriminate).
    destruct (error_table_lookup_total xff [] fresh_world eq_refl) as [_ H].
    destruct (H N) as (H1 & _ & H3). split; assumption.
Defined.

(** ** The branches of [process_response] *)

Lemma process_response_idle (w : World) :
  process_response [x00] w = print idle_line w.
Proof. reflexivity. Qed.

Lemma process_response_empty (w : World) :
  process_response [] w = dispatch_response [] w.
Proof. reflexivity. Qed.

Lemma process_response_strip (b : byte) (rest : bytes) (w : World) :
  process_response (x00 :: b :: rest) w
  = dispatch_response (b :: rest) (after_print strip_line w).
Proof. reflexivity. Qed.

Lemma process_response_keep (c : byte) (rest : bytes) (w : World) :
  c <> x00 ->
  process_response (c :: rest) w = dispatch_response (c :: rest) w.
Proof.
  intros Hc. unfold process_response.
  assert (E : Byte.eqb c x00 = false).
  { destruct (Byte.eqb c x00) eqn:E; [|reflexivity].
    apply Byte.byte_dec_bl in E. contradiction. }
  simpl. rewrite E. reflexivity.
Qed.

Lemma dispatch_response_empty (w : World) :
  dispatch_response [] w = print "Received empty or invalid response." w.
Proof. reflexivity. Qed.

Lemma dispatch_response_powerup (w : World) :
  dispatch_response [x80; x8f] w
  = (print "Power-up acknowledgment request received." ;; send_command ACK) w.
Proof. reflexivity. Qed.

(** An escrow frame with a byte at index 2. *)
Lemma dispatch_response_escrow (a b : byte) (rest : bytes) (w : World) :
  dispatch_response (x81 :: a :: b :: rest) w
  = (print ("Bill validation message received: " ++ hex (x81 :: a :: b :: rest)) ;;
     print ("Bill type: " ++ str_int (Z.of_N (Byte.to_N b)) ++ ", Value: "
            ++ get_value_from_bill_type (Z.of_N (Byte.to_N b))) ;;
     send_command ACK) w.
Proof. reflexivity. Qed.

(** An escrow frame with no byte at index 2: [response[2]] raises. *)
Lemma dispatch_response_short_escrow (response : bytes) (w : World) :
  startswith response [x81] = true ->
  nth_error response 2 = None ->
  dispatch_response response w
  = (Raise (IndexError "index out of range"),
     after_print ("Bill validation message received: " ++ hex response) w).
Proof.
  intros Hs Hn. destruct response as [|c rest]; [discriminate Hs|].
  destruct c; try discriminate Hs.
  destruct rest as [|a [|b rest]]; try discriminate Hn; reflexivity.
Qed.

Lemma contains_dispatched (c : byte) (rest : bytes) :
  contains [[x20]; [x21]; [x22]; [x28]] (slice_to 1 (c :: rest))
  = existsb (Byte.eqb c) dispatched_codes.
Proof. destruct c; reflexivity. Qed.

Lemma dispatch_response_error (c : byte) (rest : bytes) (w : World) :
  existsb (Byte.eqb c) dispatched_codes = true ->
  dispatch_response (c :: rest) w = handle_error_response (c :: rest) w.
Proof.
  destruct c; intros H; try discriminate H; reflexivity.
Qed.

Lemma dispatch_response_unknown (c : byte) (rest : bytes) (w : World) :
  existsb (Byte.eqb c) dispatched_codes = false ->
  c <> x81 ->
  c :: rest <> [x80; x8f] ->
  dispatch_response (c :: rest) w
  = print ("Unknown response: " ++ hex (c :: rest)) w.
Proof.
  intros Hd H81 Hp. unfold dispatch_response.
  rewrite contains_dispatched, Hd.
  assert (E1 : bytes_eqb (c :: rest) [x80; x8f] = false).
  { destruct (bytes_eqb (c :: rest) [x80; x8f]) eqn:E; [|reflexivity].
    apply bytes_eqb_eq in E. contradiction. }
  assert (E2 : startswith (c :: rest) [x81] = false).
  { simpl. destruct (Byte.eqb c x81) eqn:E; [|reflexivity].
    apply Byte.byte_dec_bl in E. contradiction. }
  rewrite E1, E2. reflexivity.
Qed.

(** ** The command log and the output only grow *)

Lemma appends_nothing (w : World) :
  exists cmds lines,
    written w = (written w ++ cmds)%list /\ stdout w = (stdout w ++ lines)%list.
Proof. exists [], []. now rewrite !app_nil_r. Qed.

Lemma appends_ret {A : Type} (a : A) : appends (ret a).
Proof. intros w. exact (appends_nothing w). Qed.

Lemma appends_raise {A : Type} (e : exn) : appends (@raise A e).
Proof. intros w. exact (appends_nothing w). Qed.

Lemma appends_print (s : string) : appends (print s).
Proof. intros w. exists [], [s]. simpl. now rewrite app_nil_r. Qed.

Lemma appends_then {A : Type} (w w1 : World) (c1 : list bytes)
    (l1 : list string) (r : outcome A * World) :
  written w1 = (written w ++ c1)%list ->
  stdout w1 = (stdout w ++ l1)%list ->
  (exists c2 l2, written (snd r) = (written w1 ++ c2)%list
                 /\ stdout (snd r) = (stdout w1 ++ l2)%list) ->
  exists cmds lines, written (snd r) = (written w ++ cmds)%list
                     /\ stdout (snd r) = (stdout w ++ lines)%list.
Proof.
  intros Hw Hs (c2 & l2 & H1 & H2).
  exists (c1 ++ c2)%list, (l1 ++ l2)%list.
  rewrite H1, H2, Hw, Hs, !app_assoc. now split.
Qed.

Lemma appends_bind {A B : Type} (m : M A) (k : A -> M B) :
  appends m -> (forall a, appends (k a)) -> appends (bind m k).
Proof.
  intros Hm Hk w. unfold bind. destruct (Hm w) as (c1 & l1 & H1 & H2).
  destruct (m w) as [[a|e] w1]; simpl in H1, H2.
  - exact (appends_then w w1 c1 l1 _ H1 H2 (Hk a w1)).
  - now exists c1, l1.
Qed.

Lemma appends_try_except_serial {A : Type} (m : M A) (h : string -> M A) :
  appends m -> (forall msg, appends (h msg)) -> appends (try_except_serial m h).
Proof.
  intros Hm Hh w. unfold try_except_serial.
  destruct (Hm w) as (c1 & l1 & H1 & H2).
  destruct (m w) as [[a|[msg|msg]] w1]; simpl in H1, H2;
    try (now exists c1, l1).
  exact (appends_then w w1 c1 l1 _ H1 H2 (Hh msg w1)).
Qed.

Lemma appends_try_except {A : Type} (m : M A) (h : exn -> M A) :
  appends m -> (forall e, appends (h e)) -> appends (try_except m h).
Proof.
  intros Hm Hh w. unfold try_except.
  destruct (Hm w) as (c1 & l1 & H1 & H2).
  destruct (m w) as [[a|e] w1]; simpl in H1, H2.
  - now exists c1, l1.
  - exact (appends_then w w1 c1 l1 _ H1 H2 (Hh e w1)).
Qed.

Lemma appends_port_op : appends port_op.
Proof.
  intros w. exists [], []. unfold port_op.
  destruct (faults w) as [|[msg|] fs]; simpl; now rewrite !app_nil_r.
Qed.

Lemma appends_ser_write (data : bytes) : appends (ser_write data).
Proof.
  apply appends_bind; [exact appends_port_op |].
  intros _ w. exists [data], []. simpl. now rewrite app_nil_r.
Qed.

Lemma appends_ser_in_waiting : appends ser_in_waiting.
Proof.
  apply appends_bind; [exact appends_port_op |].
  intros _ w. exists [], []. simpl. now rewrite !app_nil_r.
Qed.

Lemma appends_ser_read (size : nat) : appends (ser_read size).
Proof.
  apply appends_bind; [exact appends_port_op |].
  intros _ w. exists [], []. simpl. now rewrite !app_nil_r.
Qed.

Lemma appends_getitem (b : bytes) (i : nat) : appends (getitem b i).
Proof.
  unfold getitem. destruct (nth_error b i);
    [apply appends_ret | apply appends_raise].
Qed.

Create HintDb appends_db.
#[local] Hint Resolve appends_ret appends_raise appends_print appends_port_op
  appends_ser_write appends_ser_in_waiting appends_ser_read appends_getitem
  : appends_db.

Ltac appends_step :=
  lazymatch goal with
  | |- appends (bind _ _) => apply appends_bind; [| intros ?]
  | |- appends (try_except_serial _ _) =>
      apply appends_try_except_serial; [| intros ?]
  | |- appends (try_except _ _) => apply appends_try_except; [| intros ?]
  | |- appends (if ?b then _ else _) => destruct b
  | |- appends (match ?o with Some _ => _ | None => _ end) => destruct o
  | |- _ => solve [auto with appends_db]
  end.

Lemma appends_send_command (command : bytes) : appends (send_command command).
Proof. unfold send_command. repeat appends_step. Qed.

#[local] Hint Resolve appends_send_command : appends_db.

Lemma appends_receive_response : appends receive_response.
Proof. unfold receive_response. repeat appends_step. Qed.

Lemma appends_handle_error_response (response : bytes) :
  appends (handle_error_response response).
Proof. unfold handle_error_response. repeat appends_step. Qed.

#[local] Hint Resolve appends_receive_response appends_handle_error_response
  : appends_db.

Lemma appends_dispatch_response (response : bytes) :
  appends (dispatch_response response).
Proof. unfold dispatch_response. repeat appends_step. Qed.

#[local] Hint Resolve appends_dispatch_response : appends_db.

Lemma appends_process_response (response : bytes) :
  appends (process_response response).
Proof. unfold process_response. repeat appends_step. Qed.

#[local] Hint Resolve appends_process_response : appends_db.

Lemma appends_check_status : appends check_status.
Proof. unfold check_status. repeat appends_step. Qed.

(** ** Which runs end in an exception *)

Lemma never_raises_print (s : string) : never_raises (print s).
Proof. intros w. now exists tt. Qed.

Lemma never_raises_bind {A B : Type} (m : M A) (k : A -> M B) :
  never_raises m -> (forall a, never_raises (k a)) -> never_raises (bind m k).
Proof.
  intros Hm Hk w. unfold bind. destruct (Hm w) as [a Ha].
  destruct (m w) as [[a'|e] w1]; simpl in Ha; [| discriminate Ha].
  apply Hk.
Qed.

Lemma never_raises_send_command (command : bytes) :
  never_raises (send_command command).
Proof. intros w. exists tt. apply send_command_returns. Qed.

Lemma never_raises_handle_error_response (response : bytes) :
  never_raises (handle_error_response response).
Proof.
  unfold handle_error_response.
  apply never_raises_bind; [apply never_raises_print | intros _].
  apply never_raises_bind; [| intros _; apply never_raises_send_command].
  destruct (requires_reset response); [| apply never_raises_print].
  apply never_raises_bind; [apply never_raises_print | intros _].
  apply never_raises_send_command.
Qed.

Lemma dispatch_response_raises_iff (response : bytes) (w : World) :
  (exists e, fst (dispatch_response response w) = Raise e)
  <-> short_escrow response = true.
Proof.
  assert (R : forall m : M unit, never_raises m ->
              ~ exists e, fst (m w) = @Raise unit e).
  { intros m Hm [e He]. destruct (Hm w) as [a Ha]. congruence. }
  destruct response as [|c rest].
  { split; [intros [e He]; discriminate He | discriminate]. }
  destruct (bytes_eqb (c :: rest) [x80; x8f]) eqn:E1.
  { apply bytes_eqb_eq in E1. injection E1 as -> ->.
    split; [| discriminate].
    intros H. exfalso. revert H. apply R.
    apply never_raises_bind; [apply never_raises_print | intros _].
    apply never_raises_send_command. }
  destruct (startswith (c :: rest) [x81]) eqn:E2.
  { destruct (nth_error (c :: rest) 2) as [b|] eqn:E3.
    - assert (Hl : short_escrow (c :: rest) = false).
      { destruct rest as [|a [|b' rest]]; try discriminate E3.
        unfold short_escrow. rewrite E2. reflexivity. }
      rewrite Hl. split; [| discriminate].
      intros H. exfalso. revert H.
      unfold dispatch_response. rewrite E1, E2. unfold getitem. rewrite E3.
      apply R.
      apply never_raises_bind; [apply never_raises_print | intros _].
      apply never_raises_bind; [intros w'; now eexists | intros bt].
      apply never_raises_bind; [apply never_raises_print | intros _].
      apply never_raises_send_command.
    - rewrite (dispatch_response_short_escrow _ w E2 E3).
      split; [intros _ | intros _; now eexists].
      unfold short_escrow. rewrite E2.
      destruct rest as [|a [|b' rest]]; try discriminate E3; reflexivity. }
  unfold short_escrow. rewrite E2. split; [| discriminate].
  intros H. exfalso. revert H.
  unfold dispatch_response. rewrite E1, E2. cbn [truthy].
  apply R. destruct (contains _ _).
  - apply never_raises_handle_error_response.
  - apply never_raises_print.
Qed.

(** [process_response] raises exactly on a short escrow frame, bare or
    behind one leading idle byte; on every other input it returns. *)
Lemma process_response_raises_iff (response : bytes) (w : World) :
  (exists e, fst (process_response response w) = Raise e)
  <-> (short_escrow response = true
       \/ exists r, response = x00 :: r /\ short_escrow r = true).
Proof.
  destruct response as [|c rest].
  - split; [intros [e He]; discriminate He |].
    intros [H | (r & H & _)]; discriminate H.
  - destruct (Byte.byte_eq_dec c x00) as [-> | Hc].
    + destruct rest as [|b rest].
      * split; [intros [e He]; discriminate He |].
        intros [H | (r & H & Hr)]; [discriminate H |].
        injection H as <-. discriminate Hr.
      * rewrite process_response_strip, dispatch_response_raises_iff.
        split; [intros H; right; now eexists |].
        intros [H | (r & H & Hr)]; [discriminate H |].
        now injection H as <-.
    + rewrite (process_response_keep c rest w Hc), dispatch_response_raises_iff.
      split; [now left |].
      intros [H | (r & H & Hr)]; [exact H |].
      injection H as -> _. contradiction.
Qed.

(** ** The first line a run prints *)

Lemma prints_first_print (s : string) : prints_first s (print s).
Proof. intros w. now exists []. Qed.

Lemma prints_first_then {A : Type} (s : string) (k : M A) :
  appends k -> prints_first s (print s ;; k).
Proof.
  intros Hk w. unfold bind. simpl.
  destruct (Hk (after_print s w)) as (c & l & _ & H).
  exists l. unfold after_print in H. simpl in H. rewrite H.
  now rewrite <- app_assoc.
Qed.

Lemma dispatch_response_first_line (response : bytes) (w : World) :
  exists l lines,
    stdout (snd (dispatch_response response w)) = (stdout w ++ l :: lines)%list
    /\ l <> idle_line.
Proof.
  assert (F : forall (s : string) (m : M unit),
            prints_first s m -> s <> idle_line ->
            exists l lines,
              stdout (snd (m w)) = (stdout w ++ l :: lines)%list
              /\ l <> idle_line).
  { intros s m Hm Hs. destruct (Hm w) as [ls H]. now exists s, ls. }
  unfold dispatch_response.
  destruct (truthy response);
    [| apply (F _ _ (prints_first_print _)); discriminate].
  destruct (bytes_eqb response [x80; x8f]).
  { eapply F; [apply prints_first_then; repeat appends_step | discriminate]. }
  destruct (startswith response [x81]).
  { eapply F; [apply prints_first_then; repeat appends_step | discriminate]. }
  destruct (contains _ _).
  - eapply F; [apply prints_first_then; repeat appends_step | discriminate].
  - apply (F _ _ (prints_first_print _)); discriminate.
Qed.

(** Every response other than the single byte 0x00 makes
    [process_response] start with a line that is not the idle line. *)
Lemma process_response_first_line (response : bytes) (w : World) :
  response <> [x00] ->
  exists l lines,
    stdout (snd (process_response response w)) = (stdout w ++ l :: lines)%list
    /\ l <> idle_line.
Proof.
  intros Hr. destruct response as [|c rest].
  - apply dispatch_response_first_line.
  - destruct (Byte.byte_eq_dec c x00) as [-> | Hc].
    + destruct rest as [|b rest]; [contradiction |].
      rewrite process_response_strip.
      destruct (appends_dispatch_response (b :: rest) (after_print strip_line w))
        as (c & l & _ & H).
      exists strip_line, l. split; [| discriminate].
      rewrite H. simpl. now rewrite <- app_assoc.
    + rewrite (process_response_keep c rest w Hc).
      apply dispatch_response_first_line.
Qed.

(** ** Runs on a port that raises no fault *)

Lemma runs_print (s : string) (w : World) :
  runs (print s) w (Return tt) [] [s].
Proof. unfold runs. simpl. now rewrite app_nil_r. Qed.

Ltac healthy_run w Hw :=
  destruct w as [ib wr fl so]; simpl in Hw; subst fl;
  unfold runs; cbn; rewrite <- ?app_assoc, ?app_nil_r;
  repeat split; reflexivity.

Lemma powerup_runs (w : World) :
  faults w = [] ->
  runs (dispatch_response [x80; x8f]) w (Return tt) [[x02]]
    ["Power-up acknowledgment request received."; "Command sent: 02"].
Proof. intros Hw. healthy_run w Hw. Qed.

Lemma escrow_runs (a b : byte) (rest : bytes) (w : World) :
  faults w = [] ->
  runs (dispatch_response (x81 :: a :: b :: rest)) w (Return tt) [[x02]]
    [ "Bill validation message received: " ++ hex (x81 :: a :: b :: rest);
      "Bill type: " ++ str_int (Z.of_N (Byte.to_N b)) ++ ", Value: "
        ++ get_value_from_bill_type (Z.of_N (Byte.to_N b));
      "Command sent: 02" ].
Proof.
  intros Hw. unfold runs. rewrite dispatch_response_escrow.
  destruct w as [ib wr fl so]; simpl in Hw; subst fl.
  cbv [bind print send_command try_except_serial ser_write port_op
       fst snd written stdout faults in_buffer].
  rewrite <- !app_assoc. repeat split; reflexivity.
Qed.

(** A run that starts once the line [s] is printed, read from the world
    before that line. *)
Lemma runs_after_print {A : Type} (m : M A) (s : string) (w : World)
    (r : outcome A) (cmds : list bytes) (lines : list string) :
  runs m (after_print s w) r cmds lines ->
  fst (m (after_print s w)) = r
  /\ written (snd (m (after_print s w))) = (written w ++ cmds)%list
  /\ stdout (snd (m (after_print s w))) = (stdout w ++ s :: lines)%list.
Proof.
  intros (H1 & H2 & H3). repeat split; [exact H1 | exact H2 |].
  rewrite H3. simpl. now rewrite <- app_assoc.
Qed.

(** ** Idle handling *)

(** C3. Idle normalization precedes the matching: on the single byte 0x00
    the run prints the idle line, writes no command and returns; on 0x00
    followed by at least one byte exactly that one leading byte is dropped
    and the rest is dispatched; on 00 80 8F, with a port that raises no
    fault, the power-up branch is taken and Acknowledge (0x02) is the one
    command written. *)
Theorem idle_normalization (w : World) :
  faults w = [] ->
  runs (process_response [x00]) w (Return tt) [] [idle_line]
  /\ (forall (b : byte) (rest : bytes),
        process_response (x00 :: b :: rest) w
        = dispatch_response (b :: rest) (after_print strip_line w))
  /\ runs (process_response [x00; x80; x8f]) w (Return tt) [[x02]]
       [ strip_line; "Power-up acknowledgment request received.";
         "Command sent: 02" ].
Proof.
  intros Hw. split; [apply runs_print | split].
  - intros b rest. apply process_response_strip.
  - unfold runs. rewrite process_response_strip.
    apply runs_after_print. apply powerup_runs. exact Hw.
Qed.

Lemma idle_normalization_witness :
  faults fresh_world = []
  /\ emitted (process_response [x00; x80; x8f]) fresh_world = [[x02]].
Proof.
  split; [reflexivity |].
  destruct (idle_normalization fresh_world eq_refl) as (_ & _ & H).
  exact (runs_emitted _ _ _ _ _ H).
Defined.

(** C9. A doubled idle marker is not idle: on 00 00 one leading 0x00 is
    dropped, the remaining 00 is reported as an unknown response, and no
    command is written, whatever the port does.  The idle line is the
    first line of a run exactly when the input is the single byte 0x00. *)
Theorem doubled_idle_is_unknown (w : World) :
  runs (process_response [x00; x00]) w (Return tt) []
    [strip_line; "Unknown response: 00"]
  /\ (forall response : bytes,
        (exists lines,
           stdout (snd (process_response response w))
           = (stdout w ++ idle_line :: lines)%list)
        <-> response = [x00]).
Proof.
  split.
  - unfold runs. simpl. rewrite <- app_assoc, app_nil_r. now repeat split.
  - intros response. split.
    + intros [lines H].
      destruct (list_eq_dec Byte.byte_eq_dec response [x00]) as [E | N];
        [exact E | exfalso].
      destruct (process_response_first_line response w N) as (l & ls & H' & Hl).
      rewrite H in H'. apply app_inv_head in H'. congruence.
    + intros ->. now exists [].
Qed.

(** ** The poll cycle *)

Lemma skipn_length_plus_app {A : Type} (l l' : list A) (n : nat) :
  skipn (List.length l + n) (l ++ l') = skipn n l'.
Proof.
  induction l as [|x l IH]; simpl; [reflexivity | exact IH].
Qed.

(** On a port that raises no fault the cycle's first command is Poll. *)
Lemma check_status_poll_first (w : World) :
  faults w = [] ->
  exists reactive,
    written (snd (check_status w)) = (written w ++ POLL :: reactive)%list.
Proof.
  intros Hw.
  assert (HK : appends
    (response <- receive_response ;;
     match response with
     | Some r => if truthy r then process_response r else ret tt
     | None => ret tt
     end)) by repeat appends_step.
  unfold check_status, try_except. unfold bind at 1.
  rewrite (send_command_healthy POLL w Hw).
  set (w1 := mkWorld _ _ _ _).
  destruct (HK w1) as (c & l & Hc & _).
  destruct (bind receive_response _ w1) as [[a|e] w2]; simpl in Hc.
  - exists c. simpl. rewrite Hc. unfold w1. simpl. now rewrite <- app_assoc.
  - exists c. simpl. rewrite Hc. unfold w1. simpl. now rewrite <- app_assoc.
Qed.

(** C4. End-to-end command emission: from a port with nothing waiting that
    raises no fault, the four cycles fed the responses 00, 80 8F, 81 05 42
    and 20 emit the commands [0C], [0C, 02], [0C, 02] and [0C, 30, 3E]:
    Poll first in each cycle, then the reactive commands [], [02], [02],
    [30, 3E].  Whatever response is delivered, the cycle's first command
    is Poll.  The wire bytes are Poll 0x0C, Acknowledge 0x02, Reset 0x30,
    Enable 0x3E. *)
Theorem end_to_end_commands (w : World) :
  faults w = [] ->
  in_buffer w = [] ->
  fst (poll_cycles [[x00]; [x80; x8f]; [x81; x05; x42]; [x20]] w)
  = [ [POLL]; POLL :: [[x02]]; POLL :: [[x02]]; POLL :: [[x30]; [x3e]] ]
  /\ (forall r : bytes,
        exists reactive, emitted check_status (deliver r w) = POLL :: reactive)
  /\ POLL = [x0c] /\ ACK = [x02] /\ RESET = [x30] /\ ENABLE = [x3e].
Proof.
  intros Hf Hb. split; [| split; [| now repeat split]].
  - destruct w as [ib wr fl so]; simpl in Hf, Hb; subst fl ib.
    cbn. rewrite <- ?app_assoc. cbn [app].
    rewrite ?length_app, ?skipn_length_plus_app, skipn_length_app.
    reflexivity.
  - intros r.
    destruct (check_status_poll_first (deliver r w) Hf) as [reactive H].
    exists reactive. unfold emitted. rewrite H. apply skipn_length_app.
Qed.

Lemma end_to_end_commands_witness :
  faults fresh_world = [] /\ in_buffer fresh_world = []
  /\ fst (poll_cycles [[x00]; [x80; x8f]; [x81; x05; x42]; [x20]] fresh_world)
     = [ [[x0c]]; [[x0c]; [x02]]; [[x0c]; [x02]]; [[x0c]; [x30]; [x3e]] ].
Proof.
  split; [reflexivity | split; [reflexivity |]].
  apply (end_to_end_commands fresh_world eq_refl eq_refl).
Defined.

(** C8. Empty input is a no-op: with nothing waiting at a port that raises
    no fault, [receive_response] gives [None] and the cycle writes Poll
    and nothing else; on the empty sequence [process_response] prints the
    empty-or-invalid line, which is not the idle line, writes no command
    and returns. *)
Theorem empty_input_is_noop (w : World) :
  faults w = [] ->
  in_buffer w = [] ->
  fst (receive_response w) = Return None
  /\ runs check_status w (Return tt) [[x0c]] ["Command sent: 0c"]
  /\ runs (process_response []) w (Return tt) []
       ["Received empty or invalid response."]
  /\ "Received empty or invalid response." <> idle_line.
Proof.
  intros Hf Hb. destruct w as [ib wr fl so]; simpl in Hf, Hb; subst fl ib.
  split; [reflexivity | split; [| split; [apply runs_print | discriminate]]].
  unfold runs. cbn. now repeat split.
Qed.

Lemma empty_input_is_noop_witness :
  faults fresh_world = [] /\ in_buffer fresh_world = []
  /\ emitted check_status fresh_world = [[x0c]].
Proof.
  split; [reflexivity | split; [reflexivity |]].
  destruct (empty_input_is_noop fresh_world eq_refl eq_refl) as (_ & H & _).
  exact (runs_emitted _ _ _ _ _ H).
Defined.

(** ** Escrow frames *)

(** C1, evaluated on the code.  On the escrow frame 81, on 81 followed by
    any one byte, and on 00 81, [process_response] does not return: after
    the bill-validation line [response[2]] raises IndexError.  No command
    is written and no unknown-response line is printed.  In a poll cycle
    the exception is caught by [check_status] and reported as an error
    while checking status. *)
Theorem process_response_short_escrow_raises (w : World) :
  process_response [x81] w
  = (Raise (IndexError "index out of range"),
     after_print "Bill validation message received: 81" w)
  /\ (forall a : byte,
        process_response [x81; a] w
        = (Raise (IndexError "index out of range"),
           after_print ("Bill validation message received: " ++ hex [x81; a]) w))
  /\ process_response [x00; x81] w
     = (Raise (IndexError "index out of range"),
        after_print "Bill validation message received: 81"
          (after_print strip_line w))
  /\ emitted (process_response [x81]) w = []
  /\ check_status (deliver [x81] fresh_world)
     = (Return tt,
        mkWorld [] [[x0c]] []
          [ "Command sent: 0c"; "Received response: 81";
            "Bill validation message received: 81";
            "Error while checking status: index out of range" ]).
Proof.
  split; [reflexivity | split; [intros a; reflexivity |]].
  split; [reflexivity | split; [| reflexivity]].
  unfold emitted. simpl.
  rewrite <- (app_nil_r (written w)) at 2. apply skipn_length_app.
Qed.

Lemma get_value_unmapped (n : Z) :
  ~ (64 <= n <= 69)%Z -> get_value_from_bill_type n = "Unknown".
Proof.
  intros H. unfold get_value_from_bill_type, value_map, dict_get.
  repeat match goal with
         | |- context [Z.eqb n ?k] => destruct (Z.eqb_spec n k); [lia |]
         end.
  reflexivity.
Qed.

(** C5. Escrow extraction and denomination lookup: on 81 00 41, with a
    port that raises no fault, the escrow branch reports bill type 65 with
    value "20 nghìn" and accepts; for every escrow frame with at least
    three bytes the bill type reported is the byte at index 2; the lookup
    maps 65 (0x41) to "20 nghìn", 255 (0xFF) to "Unknown", and every code
    outside 64..69 to "Unknown". *)
Theorem escrow_extraction (w : World) :
  faults w = [] ->
  runs (process_response [x81; x00; x41]) w (Return tt) [[x02]]
    [ "Bill validation message received: 810041";
      "Bill type: 65, Value: 20 nghìn"; "Command sent: 02" ]
  /\ (forall (a b : byte) (rest : bytes),
        runs (process_response (x81 :: a :: b :: rest)) w (Return tt) [[x02]]
          [ "Bill validation message received: " ++ hex (x81 :: a :: b :: rest);
            "Bill type: " ++ str_int (Z.of_N (Byte.to_N b)) ++ ", Value: "
              ++ get_value_from_bill_type (Z.of_N (Byte.to_N b));
            "Command sent: 02" ])
  /\ get_value_from_bill_type 65 = "20 nghìn"
  /\ Z.of_N (Byte.to_N x41) = 65%Z
  /\ get_value_from_bill_type 255 = "Unknown"
  /\ (forall n : Z, ~ (64 <= n <= 69)%Z -> get_value_from_bill_type n = "Unknown").
Proof.
  intros Hw.
  assert (G : forall (a b : byte) (rest : bytes),
        runs (process_response (x81 :: a :: b :: rest)) w (Return tt) [[x02]]
          [ "Bill validation message received: " ++ hex (x81 :: a :: b :: rest);
            "Bill type: " ++ str_int (Z.of_N (Byte.to_N b)) ++ ", Value: "
              ++ get_value_from_bill_type (Z.of_N (Byte.to_N b));
            "Command sent: 02" ]).
  { intros a b rest. unfold runs.
    rewrite process_response_keep by discriminate.
    apply escrow_runs. exact Hw. }
  split; [exact (G x00 x41 []) | split; [exact G |]].
  repeat split; try reflexivity. exact get_value_unmapped.
Qed.

Lemma escrow_extraction_witness :
  faults fresh_world = []
  /\ stdout (snd (process_response [x81; x00; x41] fresh_world))
     = [ "Bill validation message received: 810041";
         "Bill type: 65, Value: 20 nghìn"; "Command sent: 02" ].
Proof.
  split; [reflexivity |].
  destruct (escrow_extraction fresh_world eq_refl) as ((_ & _ & H) & _).
  exact H.
Defined.

(** C10. Escrow acceptance is unconditional: on a port that raises no
    fault, every response whose normalized form starts with 0x81 and has
    at least three bytes, met bare or behind one leading idle byte, makes
    the driver write Acknowledge (0x02) and nothing else, whatever the
    bill-type byte at index 2; with the unmapped bill type 0xFF the value
    reported is "Unknown" and the bill is accepted all the same. *)
Theorem escrow_acceptance_unconditional (a b : byte) (rest : bytes) (w : World) :
  faults w = [] ->
  emitted (process_response (x81 :: a :: b :: rest)) w = [[x02]]
  /\ fst (process_response (x81 :: a :: b :: rest) w) = Return tt
  /\ emitted (process_response (x00 :: x81 :: a :: b :: rest)) w = [[x02]]
  /\ fst (process_response (x00 :: x81 :: a :: b :: rest) w) = Return tt
  /\ get_value_from_bill_type (Z.of_N (Byte.to_N xff)) = "Unknown"
  /\ runs (process_response [x81; a; xff]) w (Return tt) [[x02]]
       [ "Bill validation message received: " ++ hex [x81; a; xff];
         "Bill type: 255, Value: Unknown"; "Command sent: 02" ].
Proof.
  intros Hw.
  assert (G : forall (b' : byte) (rest' : bytes),
            runs (process_response (x81 :: a :: b' :: rest')) w (Return tt) [[x02]]
              [ "Bill validation message received: "
                  ++ hex (x81 :: a :: b' :: rest');
                "Bill type: " ++ str_int (Z.of_N (Byte.to_N b')) ++ ", Value: "
                  ++ get_value_from_bill_type (Z.of_N (Byte.to_N b'));
                "Command sent: 02" ]).
  { intros b' rest'. unfold runs.
    rewrite process_response_keep by discriminate.
    apply escrow_runs. exact Hw. }
  pose proof (escrow_runs a b rest (after_print strip_line w) Hw) as S.
  apply runs_after_print in S. rewrite <- process_response_strip in S.
  destruct S as (S1 & S2 & _).
  split; [exact (runs_emitted _ _ _ _ _ (G b rest)) |].
  split; [exact (proj1 (G b rest)) |].
  split; [unfold emitted; rewrite S2; apply skipn_length_app |].
  split; [exact S1 |].
  split; [reflexivity | exact (G xff [])].
Qed.

Lemma escrow_acceptance_unconditional_witness :
  faults fresh_world = []
  /\ emitted (process_response [x81; x05; xff]) fresh_world = [[x02]].
Proof.
  split; [reflexivity |].
  apply (escrow_acceptance_unconditional x05 xff [] fresh_world eq_refl).
Defined.

(** ** Which responses reach the recovery procedure *)

Lemma short_escrow_runs (response : bytes) (w : World) :
  startswith response [x81] = true ->
  nth_error response 2 = None ->
  runs (dispatch_response response) w
    (Raise (IndexError "index out of range")) []
    ["Bill validation message received: " ++ hex response].
Proof.
  intros Hs Hn. unfold runs.
  rewrite (dispatch_response_short_escrow response w Hs Hn).
  simpl. now rewrite app_nil_r.
Qed.

(** On a port that raises no fault, Enable goes out exactly when the first
    byte of the dispatched response is one of the four routed codes. *)
Lemma dispatch_response_enable_iff (c : byte) (rest : bytes) (w : World) :
  faults w = [] ->
  In ENABLE (emitted (dispatch_response (c :: rest)) w)
  <-> existsb (Byte.eqb c) dispatched_codes = true.
Proof.
  intros Hw. destruct (existsb (Byte.eqb c) dispatched_codes) eqn:E.
  - split; [reflexivity | intros _].
    unfold emitted. rewrite (dispatch_response_error c rest w E).
    fold (emitted (handle_error_response (c :: rest)) w).
    rewrite (runs_emitted _ _ _ _ _ (handle_error_response_runs _ w Hw)).
    destruct (requires_reset (c :: rest)); simpl; tauto.
  - split; [| discriminate]. intros H. exfalso.
    destruct (Byte.byte_eq_dec c x81) as [-> | N81].
    + destruct (nth_error (x81 :: rest) 2) as [b|] eqn:E3.
      * destruct rest as [|a [|b' rest]]; try discriminate E3.
        rewrite (runs_emitted _ _ _ _ _ (escrow_runs a b' rest w Hw)) in H.
        destruct H as [H | []]. discriminate H.
      * rewrite (runs_emitted _ _ _ _ _
                   (short_escrow_runs (x81 :: rest) w eq_refl E3)) in H.
        exact H.
    + destruct (list_eq_dec Byte.byte_eq_dec (c :: rest) [x80; x8f]) as [P | NP].
      * rewrite P in H.
        rewrite (runs_emitted _ _ _ _ _ (powerup_runs w Hw)) in H.
        destruct H as [H | []]. discriminate H.
      * unfold emitted in H.
        rewrite (dispatch_response_unknown c rest w E N81 NP) in H.
        fold (emitted (print ("Unknown response: " ++ hex (c :: rest))) w) in H.
        rewrite (runs_emitted _ _ _ _ _ (runs_print _ w)) in H.
        exact H.
Qed.

(** C6. Error dispatch coverage: let [c :: rest] be the response after
    normalization, that is the input itself when it does not start with
    0x00, or the input less its leading 0x00.  If [c] is one of 0x20,
    0x21, 0x22, 0x28 the response is handed to the recovery procedure; on
    a port that raises no fault Enable is written exactly in that case;
    and if [c] is one of the other codes of the error table (0x23, 0x24,
    0x25, 0x27, 0x29, 0x2A) the response is reported as unknown, no
    command is written and the run returns. *)
Theorem error_dispatch_coverage (c : byte) (rest : bytes) (w : World) :
  faults w = [] ->
  (In c [x20; x21; x22; x28] ->
     dispatch_response (c :: rest) w = handle_error_response (c :: rest) w)
  /\ (c <> x00 ->
      process_response (c :: rest) w = dispatch_response (c :: rest) w)
  /\ process_response (x00 :: c :: rest) w
     = dispatch_response (c :: rest) (after_print strip_line w)
  /\ (c <> x00 ->
      (In [x3e] (emitted (process_response (c :: rest)) w)
       <-> In c [x20; x21; x22; x28]))
  /\ (In [x3e] (emitted (process_response (x00 :: c :: rest)) w)
      <-> In c [x20; x21; x22; x28])
  /\ (In c [x23; x24; x25; x27; x29; x2a] ->
      runs (dispatch_response (c :: rest)) w (Return tt) []
        ["Unknown response: " ++ hex (c :: rest)]).
Proof.
  intros Hw. fold dispatched_codes.
  split; [| split; [| split; [| split; [| split]]]].
  - intros H. apply In_byte_existsb in H. now apply dispatch_response_error.
  - apply process_response_keep.
  - apply process_response_strip.
  - intros Hc. rewrite In_byte_existsb.
    rewrite <- (dispatch_response_enable_iff c rest w Hw).
    unfold emitted. now rewrite (process_response_keep c rest w Hc).
  - rewrite In_byte_existsb.
    rewrite <- (dispatch_response_enable_iff c rest (after_print strip_line w) Hw).
    unfold emitted. rewrite process_response_strip. reflexivity.
  - intros H. unfold runs. rewrite dispatch_response_unknown.
    + apply runs_print.
    + apply In_byte_existsb in H. revert H. destruct c; now vm_compute.
    + intros ->. simpl in H. intuition discriminate.
    + intros E. injection E as -> _. simpl in H. intuition discriminate.
Qed.

Lemma error_dispatch_coverage_witness :
  faults fresh_world = []
  /\ In [x3e] (emitted (process_response [x28]) fresh_world)
  /\ ~ In [x3e] (emitted (process_response [x23]) fresh_world).
Proof.
  split; [reflexivity |].
  assert (N28 : x28 <> x00) by discriminate.
  assert (N23 : x23 <> x00) by discriminate.
  destruct (error_dispatch_coverage x28 [] fresh_world eq_refl)
    as (_ & _ & _ & H28 & _).
  destruct (error_dispatch_coverage x23 [] fresh_world eq_refl)
    as (_ & _ & _ & H23 & _).
  split.
  - apply (H28 N28). simpl. tauto.
  - intros H. apply (H23 N23) in H. simpl in H. intuition discriminate.
Defined.

(** ** Opening the port: the retry loop *)


(** ** Port faults *)

Lemma appends_emitted {A : Type} (m : M A) (w : World) :
  appends m -> written (snd (m w)) = (written w ++ emitted m w)%list.
Proof.
  intros Hm. destruct (Hm w) as (c & l & H & _).
  unfold emitted. rewrite H. now rewrite skipn_length_app.
Qed.

Lemma send_command_written (command : bytes) (w : World) :
  exists cmds,
    written (snd (send_command command w)) = (written w ++ cmds)%list
    /\ In cmds [[]; [command]].
Proof.
  destruct w as [ib wr [|[msg|] fs] so]; cbn.
  - exists [command]. split; [reflexivity | right; now left].
  - exists []. rewrite app_nil_r. split; [reflexivity | now left].
  - exists [command]. split; [reflexivity | right; now left].
Qed.

Lemma receive_response_written (w : World) :
  written (snd (receive_response w)) = written w.
Proof.
  destruct w as [ib wr fl so]. destruct ib as [|b ib].
  - destruct fl as [|[m1|] fl]; reflexivity.
  - destruct fl as [|[m1|] [|[m2|] [|[m3|] fl]]]; reflexivity.
Qed.

(** X2. [send_command] never raises and uses up one scheduled outcome of
    the port; it writes the command and reports it, unless the port
    faults: then nothing is written and the fault is reported instead. *)
Theorem send_command_fault_behaviour (command : bytes) (w : World) :
  let w' := snd (send_command command w) in
  fst (send_command command w) = Return tt
  /\ in_buffer w' = in_buffer w
  /\ faults w' = tl (faults w)
  /\ ((exists msg, hd None (faults w) = Some msg
                   /\ written w' = written w
                   /\ stdout w'
                      = (stdout w ++ [("Error sending command: " ++ msg)%string])%list)
      \/ (hd None (faults w) = None
          /\ written w' = (written w ++ [command])%list
          /\ stdout w'
             = (stdout w ++ [("Command sent: " ++ hex command)%string])%list)).
Proof.
  destruct w as [ib wr [|[msg|] fs] so]; cbn;
    repeat (split; [reflexivity |]).
  - right. now repeat split.
  - left. exists msg. now repeat split.
  - right. now repeat split.
Qed.



(** X4. [check_status] never raises: whatever is waiting at the port and
    whatever faults the port raises, the poll cycle returns, also on the
    frames on which [process_response] raises. *)
Theorem check_status_never_raises (w : World) :
  fst (check_status w) = Return tt.
Proof.
  unfold check_status, try_except.
  destruct (bind (send_command POLL) _ w) as [[[]|e] w']; reflexivity.
Qed.

(** ** What a response can make the driver write *)

Lemma dispatch_response_commands (response : bytes) (w : World) :
  In (emitted (dispatch_response response) w)
     [[]; [ACK]; [ENABLE]; [RESET]; [RESET; ENABLE]].
Proof.
  unfold emitted, dispatch_response, handle_error_response, getitem.
  destruct w as [ib wr fl so].
  destruct (truthy response);
    [| cbn; rewrite skipn_all; simpl; tauto].
  destruct (bytes_eqb response [x80; x8f]).
  { destruct fl as [|[m1|] fl]; cbn;
      rewrite ?skipn_length_app, ?skipn_all; simpl; tauto. }
  destruct (startswith response [x81]).
  { destruct (nth_error response 2);
      destruct fl as [|[m1|] fl]; cbn;
      rewrite ?skipn_length_app, ?skipn_all; simpl; tauto. }
  destruct (contains _ _);
    [| cbn; rewrite skipn_all; simpl; tauto].
  destruct (requires_reset response);
    destruct fl as [|[m1|] [|[m2|] fl]]; cbn;
    rewrite <- ?app_assoc; cbn [app];
    rewrite ?skipn_length_app, ?skipn_all; simpl; tauto.
Qed.

Lemma process_response_emitted_in (response : bytes) (w : World) :
  In (emitted (process_response response) w)
     [[]; [ACK]; [ENABLE]; [RESET]; [RESET; ENABLE]].
Proof.
  destruct response as [|c rest].
  - apply dispatch_response_commands.
  - destruct (Byte.byte_eq_dec c x00) as [-> | Hc].
    + destruct rest as [|b rest].
      * unfold emitted. simpl. rewrite skipn_all. simpl. tauto.
      * unfold emitted. rewrite process_response_strip.
        apply (dispatch_response_commands (b :: rest) (after_print strip_line w)).
    + unfold emitted. rewrite (process_response_keep c rest w Hc).
      apply dispatch_response_commands.
Qed.

(** X5. Whatever the response and whatever the port does,
    [process_response] writes one of: nothing, Acknowledge, Enable, Reset,
    or Reset then Enable.  So a response never causes a Poll, never more
    than two commands, and never an Acknowledge together with a recovery
    command. *)
Theorem process_response_commands (response : bytes) (w : World) :
  written (snd (process_response response w))
  = (written w ++ emitted (process_response response) w)%list
  /\ In (emitted (process_response response) w)
        [[]; [[x02]]; [[x3e]]; [[x30]]; [[x30]; [x3e]]].
Proof.
  split; [apply appends_emitted, appends_process_response |].
  apply process_response_emitted_in.
Qed.

(** X6. A poll cycle writes at most three commands, whatever is waiting
    and whatever the port does: Poll or, when that write faults, nothing,
    followed by what the response makes the driver write. *)
Theorem check_status_commands (w : World) :
  exists poll reactive,
    written (snd (check_status w)) = (written w ++ poll ++ reactive)%list
    /\ In poll [[]; [[x0c]]]
    /\ In reactive [[]; [[x02]]; [[x3e]]; [[x30]]; [[x30]; [x3e]]].
Proof.
  unfold check_status, try_except. unfold bind at 1.
  pose proof (send_command_returns POLL w) as H1.
  destruct (send_command_written POLL w) as (poll & Hp & Hin).
  destruct (send_command POLL w) as [o w1]. simpl in H1, Hp. subst o.
  exists poll. unfold bind.
  pose proof (receive_response_written w1) as Hr.
  destruct (receive_response w1) as [[[r|]|e] w2]; simpl in Hr.
  - destruct (truthy r).
    + pose proof (appends_emitted _ w2 (appends_process_response r)) as Hq.
      pose proof (process_response_emitted_in r w2) as Hq'.
      exists (emitted (process_response r) w2). split; [| now split].
      destruct (process_response r w2) as [[[]|e] w3]; simpl in Hq |- *;
        rewrite Hq, Hr, Hp, <- app_assoc; reflexivity.
    + exists []. simpl. rewrite Hr, Hp, app_nil_r. repeat split; tauto.
  - exists []. simpl. rewrite Hr, Hp, app_nil_r. repeat split; tauto.
  - exists []. simpl. rewrite Hr, Hp, app_nil_r. repeat split; tauto.
Qed.

(** ** Cycles on a port that raises no fault *)

Lemma keeps_port_print (s : string) : keeps_port (print s).
Proof. intros w. now split. Qed.

Lemma keeps_port_ret {A : Type} (a : A) : keeps_port (ret a).
Proof. intros w. now split. Qed.

Lemma keeps_port_getitem (b : bytes) (i : nat) : keeps_port (getitem b i).
Proof. unfold getitem. destruct (nth_error b i); intros w; now split. Qed.

Lemma keeps_port_send_command (command : bytes) :
  keeps_port (send_command command).
Proof.
  intros [ib wr [|[msg|] fs] so]; cbn; split;
    first [reflexivity | discriminate].
Qed.

Lemma keeps_port_bind {A B : Type} (m : M A) (k : A -> M B) :
  keeps_port m -> (forall a, keeps_port (k a)) -> keeps_port (bind m k).
Proof.
  intros Hm Hk w. unfold bind. destruct (Hm w) as [H1 H2].
  destruct (m w) as [[a|e] w1]; simpl in H1, H2.
  - destruct (Hk a w1) as [H3 H4]. split; [congruence | auto].
  - now split.
Qed.

Create HintDb keeps_port_db.
#[local] Hint Resolve keeps_port_print keeps_port_ret keeps_port_getitem
  keeps_port_send_command : keeps_port_db.

Ltac keeps_port_step :=
  lazymatch goal with
  | |- keeps_port (bind _ _) => apply keeps_port_bind; [| intros ?]
  | |- keeps_port (if ?b then _ else _) => destruct b
  | |- _ => solve [auto with keeps_port_db]
  end.

Lemma keeps_port_handle_error_response (response : bytes) :
  keeps_port (handle_error_response response).
Proof. unfold handle_error_response. repeat keeps_port_step. Qed.

#[local] Hint Resolve keeps_port_handle_error_response : keeps_port_db.

Lemma keeps_port_dispatch_response (response : bytes) :
  keeps_port (dispatch_response response).
Proof. unfold dispatch_response. repeat keeps_port_step. Qed.

#[local] Hint Resolve keeps_port_dispatch_response : keeps_port_db.

Lemma keeps_port_process_response (response : bytes) :
  keeps_port (process_response response).
Proof. unfold process_response. repeat keeps_port_step. Qed.

(** On a port that raises no fault what a response makes the driver write
    does not depend on the world it arrives in. *)
Lemma dispatch_response_emitted_healthy (response : bytes) (w w' : World) :
  faults w = [] -> faults w' = [] ->
  emitted (dispatch_response response) w
  = emitted (dispatch_response response) w'.
Proof.
  destruct w as [ib wr fl so], w' as [ib' wr' fl' so']; simpl.
  intros -> ->.
  unfold emitted, dispatch_response, handle_error_response, getitem.
  destruct (truthy response); [| cbn; now rewrite !skipn_all].
  destruct (bytes_eqb response [x80; x8f]);
    [cbn; now rewrite !skipn_length_app |].
  destruct (startswith response [x81]).
  { destruct (nth_error response 2); cbn;
      now rewrite ?skipn_length_app, ?skipn_all. }
  destruct (contains _ _); [| cbn; now rewrite !skipn_all].
  destruct (requires_reset response); cbn;
    rewrite <- ?app_assoc; cbn [app]; now rewrite !skipn_length_app.
Qed.

Lemma process_response_emitted_healthy (response : bytes) (w w' : World) :
  faults w = [] -> faults w' = [] ->
  emitted (process_response response) w
  = emitted (process_response response) w'.
Proof.
  intros Hw Hw'. destruct response as [|c rest].
  - now apply dispatch_response_emitted_healthy.
  - destruct (Byte.byte_eq_dec c x00) as [-> | Hc].
    + destruct rest as [|b rest].
      * unfold emitted. simpl. now rewrite !skipn_all.
      * unfold emitted. rewrite !process_response_strip.
        now apply (dispatch_response_emitted_healthy (b :: rest)
                     (after_print strip_line w) (after_print strip_line w')).
    + unfold emitted. rewrite !(process_response_keep c rest _ Hc).
      now apply dispatch_response_emitted_healthy.
Qed.

Lemma receive_response_healthy (w : World) (b : byte) (rest : bytes) :
  faults w = [] ->
  in_buffer w = b :: rest ->
  receive_response w
  = (Return (Some (b :: rest)),
     mkWorld [] (written w) []
       (stdout w ++ ["Received response: " ++ hex (b :: rest)])).
Proof.
  destruct w as [ib wr fl so]; simpl. intros -> ->.
  cbn. now rewrite firstn_all, skipn_all.
Qed.

(** One cycle on a port with no fault scheduled and nothing left over. *)
Lemma check_status_healthy_cycle (r : bytes) (w : World) :
  faults w = [] ->
  in_buffer w = [] ->
  emitted check_status (deliver r w)
  = POLL :: emitted (process_response r) fresh_world
  /\ faults (snd (check_status (deliver r w))) = []
  /\ in_buffer (snd (check_status (deliver r w))) = [].
Proof.
  intros Hf Hb. destruct r as [|b rest].
  - destruct w as [ib wr fl so]; simpl in Hf, Hb; subst fl ib.
    unfold emitted. cbn. rewrite skipn_length_app. now repeat split.
  - destruct w as [ib wr fl so]; simpl in Hf, Hb; subst fl ib.
    unfold emitted, check_status, try_except, bind, deliver.
    rewrite send_command_healthy by reflexivity.
    rewrite (receive_response_healthy _ b rest) by reflexivity.
    cbn [truthy written in_buffer stdout faults app].
    set (w2 := mkWorld [] _ [] _).
    destruct (keeps_port_process_response (b :: rest) w2) as [K1 K2].
    specialize (K2 eq_refl).
    pose proof (appends_emitted _ w2 (appends_process_response (b :: rest)))
      as Hq.
    rewrite (process_response_emitted_healthy (b :: rest) w2 fresh_world
               eq_refl eq_refl) in Hq.
    destruct (process_response (b :: rest) w2) as [[[]|e] w3];
      simpl in K1, K2, Hq |- *; rewrite Hq; unfold w2; simpl;
      rewrite <- app_assoc, skipn_length_app; now repeat split.
Qed.

(** X7. The driver is stateless across cycles: on a port that raises no
    fault, started with nothing waiting, every cycle writes Poll followed
    by what its own response alone makes the driver write, whatever came
    in earlier cycles; each response is read in full in its own cycle, so
    nothing is left waiting at the end. *)
Theorem poll_cycles_stateless (responses : list bytes) (w : World) :
  faults w = [] ->
  in_buffer w = [] ->
  fst (poll_cycles responses w)
  = map (fun r => [x0c] :: emitted (process_response r) fresh_world) responses
  /\ faults (snd (poll_cycles responses w)) = []
  /\ in_buffer (snd (poll_cycles responses w)) = [].
Proof.
  revert w. induction responses as [|r rs IH]; intros w Hf Hb.
  - now repeat split.
  - destruct (check_status_healthy_cycle r w Hf Hb) as (E & Hf' & Hb').
    specialize (IH _ Hf' Hb'). cbn [poll_cycles map].
    destruct (poll_cycles rs (snd (check_status (deliver r w)))) as [cmds w3].
    simpl in IH |- *. destruct IH as (I1 & I2 & I3).
    rewrite E, I1. now repeat split.
Qed.

Lemma poll_cycles_stateless_witness :
  faults fresh_world = [] /\ in_buffer fresh_world = []
  /\ fst (poll_cycles [[x22]; [x22]] fresh_world)
     = [ [[x0c]; [x30]; [x3e]]; [[x0c]; [x30]; [x3e]] ].
Proof.
  split; [reflexivity | split; [reflexivity |]].
  apply (poll_cycles_stateless [[x22]; [x22]] fresh_world eq_refl eq_refl).
Defined.

(** ** Denominations *)

(** X8. The denomination lookup answers "Unknown" exactly for the bill
    types outside 64..69, and inside that range distinct bill types have
    distinct labels. *)
Theorem get_value_from_bill_type_known (n m : Z) :
  (get_value_from_bill_type n <> "Unknown" <-> (64 <= n <= 69)%Z)
  /\ ((64 <= n <= 69)%Z -> (64 <= m <= 69)%Z ->
      get_value_from_bill_type n = get_value_from_bill_type m -> n = m).
Proof.
  assert (R : forall k : Z, (64 <= k <= 69)%Z ->
              k = 64%Z \/ k = 65%Z \/ k = 66%Z \/ k = 67%Z \/ k = 68%Z
              \/ k = 69%Z) by (intros k Hk; lia).
  split.
  - split.
    + intros H.
      destruct (Z_le_dec 64 n) as [L1 |]; [destruct (Z_le_dec n 69) as [L2 |] |];
        [lia | |]; exfalso; apply H; apply get_value_unmapped; lia.
    + intros H. apply R in H.
      destruct H as [-> | [-> | [-> | [-> | [-> | ->]]]]]; discriminate.
  - intros Hn Hm. apply R in Hn. apply R in Hm.
    destruct Hn as [-> | [-> | [-> | [-> | [-> | ->]]]]];
      destruct Hm as [-> | [-> | [-> | [-> | [-> | ->]]]]];
      intros H; first [reflexivity | discriminate H].
Qed.

Lemma get_value_from_bill_type_known_witness :
  (64 <= 66 <= 69)%Z /\ (64 <= 66 <= 69)%Z
  /\ get_value_from_bill_type 66 <> "Unknown".
Proof.
  assert (H : (64 <= 66 <= 69)%Z) by lia.
  split; [exact H | split; [exact H |]].
  apply (get_value_from_bill_type_known 66 66). exact H.
Defined.

(** ** Recovery and cycles on a faulting port *)

(** X9. Recovery is not a transaction: each of its writes meets its own
    outcome at the port and none is retried.  When a reset is required,
    Reset is written unless the first coming port operation raises and
    Enable unless the second does, so a failed Reset is still followed by
    Enable and a written Reset can go without it; otherwise Enable is
    written unless the first operation raises.  The procedure returns in
    every case. *)
Theorem handle_error_response_under_faults (response : bytes) (w : World) :
  fst (handle_error_response response w) = Return tt
  /\ emitted (handle_error_response response) w
     = (if requires_reset response
        then (if faulty 0 w then [] else [[x30]])
             ++ (if faulty 1 w then [] else [[x3e]])
        else (if faulty 0 w then [] else [[x3e]]))%list.
Proof.
  unfold emitted, handle_error_response, faulty.
  destruct w as [ib wr fl so].
  destruct (requires_reset response);
    destruct fl as [|[m1|] [|[m2|] fl]]; cbn;
    rewrite <- ?app_assoc; cbn [app];
    rewrite ?skipn_length_app, ?skipn_all; now split.
Qed.

(** X10. A fault while reading ends the cycle after Poll and loses
    nothing: when Poll is written and the next port operation raises, the
    cycle reports the fault, writes no further command and leaves the
    waiting bytes where they are. *)
Theorem check_status_read_fault (w : World) (msg : string)
    (fs : list (option string)) :
  faults w = None :: Some msg :: fs ->
  check_status w
  = (Return tt,
     mkWorld (in_buffer w) (written w ++ [[x0c]]) fs
       (stdout w ++ ["Command sent: 0c"; "Error receiving response: " ++ msg])).
Proof.
  destruct w as [ib wr fl so]; simpl. intros ->.
  cbn. now rewrite <- app_assoc.
Qed.

Lemma check_status_read_fault_witness :
  faults (mkWorld [x80; x8f] [] [None; Some "device disconnected"] [])
  = [None; Some "device disconnected"]
  /\ in_buffer
       (snd (check_status
               (mkWorld [x80; x8f] [] [None; Some "device disconnected"] [])))
     = [x80; x8f].
Proof.
  split; [reflexivity |].
  rewrite (check_status_read_fault
             (mkWorld [x80; x8f] [] [None; Some "device disconnected"] [])
             "device disconnected" [] eq_refl).
  reflexivity.
Defined.

(** X11. A failed Poll does not end the cycle: when the only fault
    scheduled hits the Poll write, the response delivered is still read
    and answered, and the cycle writes what that response alone makes the
    driver write, without Poll before it. *)
Theorem check_status_poll_fault (r : bytes) (w : World) (msg : string) :
  faults w = [Some msg] ->
  in_buffer w = [] ->
  emitted check_status (deliver r w)
  = emitted (process_response r) fresh_world.
Proof.
  intros Hf Hb.
  destruct w as [ib wr fl so]; simpl in Hf, Hb; subst fl ib.
  destruct r as [|b rest].
  - unfold emitted. cbn. now rewrite skipn_all.
  - unfold emitted at 1. unfold check_status, try_except, bind, deliver.
    cbn [send_command try_except_serial ser_write bind port_op print faults
         in_buffer written stdout fst snd app].
    rewrite (receive_response_healthy _ b rest) by reflexivity.
    cbn [truthy written in_buffer stdout faults app].
    set (w2 := mkWorld [] _ [] _).
    pose proof (appends_emitted _ w2 (appends_process_response (b :: rest)))
      as Hq.
    rewrite (process_response_emitted_healthy (b :: rest) w2 fresh_world
               eq_refl eq_refl) in Hq.
    destruct (process_response (b :: rest) w2) as [[[]|e] w3];
      simpl in Hq |- *; rewrite Hq; unfold w2; simpl;
      now rewrite skipn_length_app.
Qed.

Lemma check_status_poll_fault_witness :
  faults (mkWorld [] [] [Some "write timeout"] []) = [Some "write timeout"]
  /\ in_buffer (mkWorld [] [] [Some "write timeout"] []) = []
  /\ emitted check_status
       (deliver [x80; x8f] (mkWorld [] [] [Some "write timeout"] []))
     = [[x02]].
Proof.
  split; [reflexivity | split; [reflexivity |]].
  rewrite (check_status_poll_fault [x80; x8f]
             (mkWorld [] [] [Some "write timeout"] []) "write timeout"
             eq_refl eq_refl).
  reflexivity.
Defined.

(** ** Properties of everything a run writes and prints *)

Section Effects.

Variable P : list bytes -> list string -> Prop.
Hypothesis P_nil : P [] [].
Hypothesis P_app : forall c1 l1 c2 l2,
  P c1 l1 -> P c2 l2 -> P (c1 ++ c2)%list (l1 ++ l2)%list.

Lemma effects_silent {A : Type} (m : M A) :
  (forall w, written (snd (m w)) = written w /\ stdout (snd (m w)) = stdout w) ->
  effects P m.
Proof.
  intros H w. destruct (H w) as [H1 H2]. exists [], [].
  rewrite H1, H2, !app_nil_r. now repeat split.
Qed.

Lemma effects_ret {A : Type} (a : A) : effects P (ret a).
Proof. apply effects_silent. now split. Qed.

Lemma effects_raise {A : Type} (e : exn) : effects P (@raise A e).
Proof. apply effects_silent. now split. Qed.

Lemma effects_getitem (b : bytes) (i : nat) : effects P (getitem b i).
Proof.
  unfold getitem. destruct (nth_error b i);
    [apply effects_ret | apply effects_raise].
Qed.

Lemma effects_print (s : string) : P [] [s] -> effects P (print s).
Proof.
  intros Hs w. exists [], [s]. simpl. rewrite app_nil_r. now repeat split.
Qed.

Lemma effects_then {A : Type} (w w1 : World) (c1 : list bytes)
    (l1 : list string) (r : outcome A * World) :
  written w1 = (written w ++ c1)%list ->
  stdout w1 = (stdout w ++ l1)%list ->
  P c1 l1 ->
  (exists c2 l2, written (snd r) = (written w1 ++ c2)%list
                 /\ stdout (snd r) = (stdout w1 ++ l2)%list /\ P c2 l2) ->
  exists cmds lines, written (snd r) = (written w ++ cmds)%list
                     /\ stdout (snd r) = (stdout w ++ lines)%list
                     /\ P cmds lines.
Proof.
  intros Hw Hs Hp (c2 & l2 & H1 & H2 & H3).
  exists (c1 ++ c2)%list, (l1 ++ l2)%list.
  rewrite H1, H2, Hw, Hs, !app_assoc. repeat split. now apply P_app.
Qed.

Lemma effects_bind {A B : Type} (m : M A) (k : A -> M B) :
  effects P m -> (forall a, effects P (k a)) -> effects P (bind m k).
Proof.
  intros Hm Hk w. unfold bind. destruct (Hm w) as (c1 & l1 & H1 & H2 & H3).
  destruct (m w) as [[a|e] w1]; simpl in H1, H2.
  - exact (effects_then w w1 c1 l1 _ H1 H2 H3 (Hk a w1)).
  - now exists c1, l1.
Qed.

Lemma effects_try_except {A : Type} (m : M A) (h : exn -> M A) :
  effects P m -> (forall e, effects P (h e)) -> effects P (try_except m h).
Proof.
  intros Hm Hh w. unfold try_except.
  destruct (Hm w) as (c1 & l1 & H1 & H2 & H3).
  destruct (m w) as [[a|e] w1]; simpl in H1, H2.
  - now exists c1, l1.
  - exact (effects_then w w1 c1 l1 _ H1 H2 H3 (Hh e w1)).
Qed.

Lemma effects_send_command (command : bytes) :
  P [command] [command_line command] ->
  (forall msg, P [] ["Error sending command: " ++ msg]) ->
  effects P (send_command command).
Proof.
  intros Hc He [ib wr [|[msg|] fs] so]; cbn.
  - exists [command], [command_line command]. now repeat split.
  - exists [], ["Error sending command: " ++ msg].
    rewrite app_nil_r. now repeat split.
  - exists [command], [command_line command]. now repeat split.
Qed.

Lemma effects_receive_response :
  (forall r, P [] ["Received response: " ++ hex r]) ->
  (forall msg, P [] ["Error receiving response: " ++ msg]) ->
  effects P receive_response.
Proof.
  intros Hr He [ib wr fl so]. destruct ib as [|b ib].
  - destruct fl as [|[m1|] fl]; cbn;
      first [ exists [], []; rewrite !app_nil_r; now repeat split
            | eexists [], [_]; rewrite app_nil_r; repeat split; apply He ].
  - destruct fl as [|[m1|] [|[m2|] [|[m3|] fl]]]; cbn;
      rewrite ?firstn_all, ?skipn_all;
      eexists [], [_]; rewrite app_nil_r;
      (split; [reflexivity | split; [reflexivity |]]);
      first [exact (Hr (b :: ib)) | apply He].
Qed.

End Effects.

Ltac effects_step :=
  lazymatch goal with
  | |- effects _ (bind _ _) => apply effects_bind; [.. | intros ?]
  | |- effects _ (try_except _ _) => apply effects_try_except; [.. | intros ?]
  | |- effects _ (if ?b then _ else _) => destruct b
  | |- effects _ (match ?o with Some _ => _ | None => _ end) => destruct o
  | |- effects _ (ret _) => apply effects_ret
  | |- effects _ (getitem _ _) => apply effects_getitem
  | |- effects _ (print _) => apply effects_print
  | |- effects _ (send_command _) => apply effects_send_command
  | |- effects _ receive_response => apply effects_receive_response
  end.

Lemma accounted_nil : accounted [] [].
Proof. reflexivity. Qed.

Lemma accounted_app (c1 : list bytes) (l1 : list string)
    (c2 : list bytes) (l2 : list string) :
  accounted c1 l1 -> accounted c2 l2 ->
  accounted (c1 ++ c2)%list (l1 ++ l2)%list.
Proof.
  unfold accounted. intros H1 H2. now rewrite filter_app, map_app, H1, H2.
Qed.

Lemma effects_accounted_check_status : effects accounted check_status.
Proof.
  unfold check_status, process_response, dispatch_response,
    handle_error_response.
  repeat effects_step;
    try exact accounted_nil; try exact accounted_app;
    intros; unfold accounted; reflexivity.
Qed.

(** X12. The console accounts for the port: in every poll cycle,
    whatever is waiting and whatever the port does, the lines that start
    with "Command sent: " are exactly the reports of the commands written
    in that cycle, in the order written; a command whose write faulted is
    not reported as sent. *)
Theorem check_status_log_accounts_for_commands (w : World) :
  exists cmds lines,
    written (snd (check_status w)) = (written w ++ cmds)%list
    /\ stdout (snd (check_status w)) = (stdout w ++ lines)%list
    /\ filter is_command_line lines
       = map (fun c => "Command sent: " ++ hex c) cmds.
Proof. exact (effects_accounted_check_status w). Qed.

Lemma no_unknown_error_nil : no_unknown_error [] [].
Proof. intros []. Qed.

Lemma no_unknown_error_app (c1 : list bytes) (l1 : list string)
    (c2 : list bytes) (l2 : list string) :
  no_unknown_error c1 l1 -> no_unknown_error c2 l2 ->
  no_unknown_error (c1 ++ c2)%list (l1 ++ l2)%list.
Proof.
  unfold no_unknown_error. intros H1 H2 H. apply in_app_or in H. tauto.
Qed.

Ltac no_unknown_error_side :=
  first [ exact no_unknown_error_nil
        | exact no_unknown_error_app
        | let H := fresh "H" in
          intros; intros [H | []];
          unfold unknown_error_line in H; simpl in H; discriminate H ].

Lemma no_unknown_error_handle_error_response (response : bytes) :
  contains [[x20]; [x21]; [x22]; [x28]] (slice_to 1 response) = true ->
  effects no_unknown_error (handle_error_response response).
Proof.
  intros H. destruct response as [|c rest]; [discriminate H |].
  destruct c; try discriminate H;
    unfold handle_error_response; repeat effects_step;
    no_unknown_error_side.
Qed.

Lemma no_unknown_error_dispatch_response (response : bytes) :
  effects no_unknown_error (dispatch_response response).
Proof.
  unfold dispatch_response.
  destruct (truthy response);
    [| apply effects_print; no_unknown_error_side].
  destruct (bytes_eqb response [x80; x8f]);
    [repeat effects_step; no_unknown_error_side |].
  destruct (startswith response [x81]);
    [repeat effects_step; no_unknown_error_side |].
  destruct (contains _ _) eqn:E.
  - now apply no_unknown_error_handle_error_response.
  - apply effects_print; no_unknown_error_side.
Qed.

Lemma no_unknown_error_check_status : effects no_unknown_error check_status.
Proof.
  unfold check_status, process_response.
  repeat first [ apply no_unknown_error_dispatch_response | effects_step ];
    no_unknown_error_side.
Qed.

(** X13. The fallback of the error table cannot be reached from a poll
    cycle: whatever is waiting and whatever the port does, no cycle prints
    "Error detected: Unknown Error", because only codes with a table entry
    are routed to the recovery procedure. *)
Theorem check_status_never_reports_unknown_error (w : World) :
  exists lines,
    stdout (snd (check_status w)) = (stdout w ++ lines)%list
    /\ ~ In "Error detected: Unknown Error" lines.
Proof.
  destruct (no_unknown_error_check_status w) as (cmds & lines & _ & H1 & H2).
  now exists lines.
Qed.

(** ** Framing *)

(** X14. The power-up request is matched as a whole frame: on a port that
    raises no fault a response starting with 0x80 is acknowledged exactly
    when it is the two bytes 80 8F.  Since a cycle reads all waiting bytes
    as one response, a power-up request read together with bytes that
    follow it is not acknowledged: the cycle writes Poll alone. *)
Theorem powerup_requires_exact_frame (rest : bytes) (w : World) :
  faults w = [] ->
  in_buffer w = [] ->
  emitted (process_response (x80 :: rest)) w
  = (if bytes_eqb rest [x8f] then [[x02]] else [])
  /\ (forall (b : byte) (more : bytes),
        emitted check_status (deliver (x80 :: x8f :: b :: more) w) = [[x0c]]).
Proof.
  intros Hf Hb.
  assert (G : forall (tail : bytes) (v : World), faults v = [] ->
            emitted (process_response (x80 :: tail)) v
            = (if bytes_eqb tail [x8f] then [[x02]] else [])).
  { intros tail v Hv. unfold emitted.
    rewrite process_response_keep by discriminate.
    fold (emitted (dispatch_response (x80 :: tail)) v).
    destruct (bytes_eqb tail [x8f]) eqn:E.
    - apply bytes_eqb_eq in E. subst tail.
      exact (runs_emitted _ _ _ _ _ (powerup_runs v Hv)).
    - unfold emitted. rewrite dispatch_response_unknown.
      + exact (runs_emitted _ _ _ _ _ (runs_print _ v)).
      + reflexivity.
      + discriminate.
      + intros H. injection H as ->. discriminate E. }
  split; [exact (G rest w Hf) |].
  intros b more.
  destruct (check_status_healthy_cycle (x80 :: x8f :: b :: more) w Hf Hb)
    as (H & _).
  rewrite H, (G (x8f :: b :: more) fresh_world eq_refl). reflexivity.
Qed.

Lemma powerup_requires_exact_frame_witness :
  faults fresh_world = [] /\ in_buffer fresh_world = []
  /\ emitted check_status (deliver [x80; x8f; x81; x05; x42] fresh_world)
     = [[x0c]].
Proof.
  split; [reflexivity | split; [reflexivity |]].
  apply (powerup_requires_exact_frame [] fresh_world eq_refl eq_refl).
Defined.

(** X15. Only one leading idle byte is forgiven: whatever follows them,
    a response with two leading 0x00 bytes is reported as unknown, from
    its second byte on, and no command is written, on any port. *)
Theorem second_idle_byte_makes_unknown (rest : bytes) (w : World) :
  runs (process_response (x00 :: x00 :: rest)) w (Return tt) []
    [strip_line; "Unknown response: " ++ hex (x00 :: rest)].
Proof.
  unfold runs. rewrite process_response_strip.
  apply runs_after_print. unfold runs.
  rewrite dispatch_response_unknown;
    [apply runs_print | reflexivity | discriminate | discriminate].
Qed.
